(** * TimberWolf / GrayWolf runtime core: shader store, clock, game loop

    A shallow embedding of [tw::GLShaderStore] (GLShaderStore.cpp), of
    [tw::Clock] (Clock.hpp) and of the fixed-timestep update loop of
    [GameLoop] (GameLoop.hpp), with the properties the design document
    states about them. *)

From stdpp Require Import gmap strings list fin_maps.
From Stdlib Require Import ZArith QArith Qround Lia Lqa.

Close Scope Q_scope.

(** ** The shader store *)

Module ShaderStore.

(** *** Shared ownership

    A [std::shared_ptr<T>] either is null or owns the object at some
    address together with the other copies of itself; the use count of the
    object lives in its control block.  A raw [T*] is null or an address. *)

Definition addr := positive.

Inductive shared_ptr : Type :=
  | nullptr : shared_ptr
  | owns (a : addr) : shared_ptr.

Inductive raw_ptr : Type :=
  | raw_null : raw_ptr
  | raw (a : addr) : raw_ptr.

Arguments owns a%_positive.
Arguments raw a%_positive.

Global Instance shared_ptr_eq_dec : EqDecision shared_ptr.
Proof. solve_decision. Defined.

Global Instance shared_ptr_inhabited : Inhabited shared_ptr := populate nullptr.

(** The closed set of resource kinds, one static map each. *)
Inductive Kind : Type :=
  | VertexShader
  | FragmentShader
  | GeometryShader
  | TesselationEvaluationShader
  | TesselationControlShader
  | ComputeShader
  | ShaderProgram.

(** The seven static [std::unordered_map<std::string, std::shared_ptr<..>>]
    members declared at the end of GLShaderStore.cpp. *)
Record GLShaderStore : Type := mkStore {
  m_vertexShaders : gmap string shared_ptr;
  m_fragmentShaders : gmap string shared_ptr;
  m_geometryShaders : gmap string shared_ptr;
  m_tesselationEvaluationShaders : gmap string shared_ptr;
  m_tesselationControlShaders : gmap string shared_ptr;
  m_computeShaders : gmap string shared_ptr;
  m_shaderPrograms : gmap string shared_ptr
}.

(** Modelled from the spec: the logging collaborator ([Log.hpp] is not part
    of the sources at hand) "exposes a leveled warning(category, message...)
    call"; an entry keeps the level, the category and the message parts in
    the order they were passed. *)
Inductive LogLevel : Type := Warning.

Record LogEntry : Type := mkEntry {
  entry_level : LogLevel;
  entry_category : string;
  entry_message : list string
}.

(** Everything the store's member functions can touch: the seven maps, the
    control blocks (use counts) of the live objects, the objects whose
    destructor has run, and the log output. *)
Record World : Type := mkWorld {
  caches : GLShaderStore;
  use_count : gmap addr nat;
  destroyed : list addr;
  log_output : list LogEntry
}.

(** *** A state monad over [World] *)

Definition M (A : Type) : Type := World -> A * World.

Definition ret {A : Type} (a : A) : M A := fun w => (a, w).

Definition bind {A B : Type} (c : M A) (f : A -> M B) : M B :=
  fun w => let (a, w') := c w in f a w'.

Definition gets {A : Type} (f : World -> A) : M A := fun w => (f w, w).

Definition modify (f : World -> World) : M unit := fun w => (tt, f w).

Definition eval {A : Type} (c : M A) (w : World) : A := fst (c w).

Definition exec {A : Type} (c : M A) (w : World) : World := snd (c w).

Declare Scope store_scope.
Delimit Scope store_scope with store.
Notation "'let*' x := c 'in' k" := (bind c (fun x => k))
  (at level 10, x name, c at level 100, k at level 200) : store_scope.
Notation "c >> k" := (bind c (fun _ => k))
  (at level 65, right associativity) : store_scope.
Local Open Scope store_scope.

(** *** Field access by kind *)

Definition cache (kind : Kind) (s : GLShaderStore) : gmap string shared_ptr :=
  match kind with
  | VertexShader => m_vertexShaders s
  | FragmentShader => m_fragmentShaders s
  | GeometryShader => m_geometryShaders s
  | TesselationEvaluationShader => m_tesselationEvaluationShaders s
  | TesselationControlShader => m_tesselationControlShaders s
  | ComputeShader => m_computeShaders s
  | ShaderProgram => m_shaderPrograms s
  end.

Definition with_cache (kind : Kind) (m : gmap string shared_ptr)
    (s : GLShaderStore) : GLShaderStore :=
  match kind with
  | VertexShader =>
      mkStore m (m_fragmentShaders s) (m_geometryShaders s)
        (m_tesselationEvaluationShaders s) (m_tesselationControlShaders s)
        (m_computeShaders s) (m_shaderPrograms s)
  | FragmentShader =>
      mkStore (m_vertexShaders s) m (m_geometryShaders s)
        (m_tesselationEvaluationShaders s) (m_tesselationControlShaders s)
        (m_computeShaders s) (m_shaderPrograms s)
  | GeometryShader =>
      mkStore (m_vertexShaders s) (m_fragmentShaders s) m
        (m_tesselationEvaluationShaders s) (m_tesselationControlShaders s)
        (m_computeShaders s) (m_shaderPrograms s)
  | TesselationEvaluationShader =>
      mkStore (m_vertexShaders s) (m_fragmentShaders s) (m_geometryShaders s)
        m (m_tesselationControlShaders s)
        (m_computeShaders s) (m_shaderPrograms s)
  | TesselationControlShader =>
      mkStore (m_vertexShaders s) (m_fragmentShaders s) (m_geometryShaders s)
        (m_tesselationEvaluationShaders s) m
        (m_computeShaders s) (m_shaderPrograms s)
  | ComputeShader =>
      mkStore (m_vertexShaders s) (m_fragmentShaders s) (m_geometryShaders s)
        (m_tesselationEvaluationShaders s) (m_tesselationControlShaders s)
        m (m_shaderPrograms s)
  | ShaderProgram =>
      mkStore (m_vertexShaders s) (m_fragmentShaders s) (m_geometryShaders s)
        (m_tesselationEvaluationShaders s) (m_tesselationControlShaders s)
        (m_computeShaders s) m
  end.

Definition read_cache (kind : Kind) : M (gmap string shared_ptr) :=
  gets (fun w => cache kind (caches w)).

Definition write_cache (kind : Kind) (m : gmap string shared_ptr) : M unit :=
  modify (fun w =>
    mkWorld (with_cache kind m (caches w)) (use_count w) (destroyed w)
      (log_output w)).

(** *** [std::shared_ptr] operations *)

(** Copy construction: one more owner of the same object. *)
Definition sp_copy (h : shared_ptr) : M shared_ptr :=
  match h with
  | nullptr => ret nullptr
  | owns a =>
      modify (fun w =>
        mkWorld (caches w)
          (<[a := S (default 0 (use_count w !! a))]> (use_count w))
          (destroyed w) (log_output w)) >>
      ret (owns a)
  end.

(** Destruction or [reset()] of one owner: the count drops, and the last
    owner runs the object's destructor and frees the control block. *)
Definition sp_release (h : shared_ptr) : M unit :=
  match h with
  | nullptr => ret tt
  | owns a =>
      modify (fun w =>
        match use_count w !! a with
        | Some (S (S n)) =>
            mkWorld (caches w) (<[a := S n]> (use_count w)) (destroyed w)
              (log_output w)
        | Some _ =>
            mkWorld (caches w) (delete a (use_count w)) (a :: destroyed w)
              (log_output w)
        | None => w
        end)
  end.

(** [std::shared_ptr<T>(p)]: a new control block with use count one.  (For
    an address that some [shared_ptr] already owns the C++ behaviour is
    undefined; the properties below assume the address is fresh.) *)
Definition sp_from_raw (p : raw_ptr) : M shared_ptr :=
  match p with
  | raw_null => ret nullptr
  | raw a =>
      modify (fun w =>
        mkWorld (caches w) (<[a := 1]> (use_count w)) (destroyed w)
          (log_output w)) >>
      ret (owns a)
  end.

(** *** [std::unordered_map] operations *)

(** [m.find(key) == m.end()] *)
Definition find_is_end (m : gmap string shared_ptr) (key : string) : bool :=
  match m !! key with
  | None => true
  | Some _ => false
  end.

(** [m[key]]: a missing key is inserted with a value-initialised (null)
    pointer, and the element is returned. *)
Definition subscript (kind : Kind) (key : string) : M shared_ptr :=
  let* m := read_cache kind in
  match m !! key with
  | Some v => ret v
  | None => write_cache kind (<[key := nullptr]> m) >> ret nullptr
  end.

(** [m[key].reset()] *)
Definition subscript_reset (kind : Kind) (key : string) : M unit :=
  let* v := subscript kind key in
  sp_release v >>
  let* m := read_cache kind in
  write_cache kind (<[key := nullptr]> m).

(** [m.emplace(key, h)]: inserts a copy of [h] unless the key is there. *)
Definition emplace (kind : Kind) (key : string) (h : shared_ptr) : M unit :=
  let* m := read_cache kind in
  match m !! key with
  | Some _ => ret tt
  | None =>
      let* c := sp_copy h in
      write_cache kind (<[key := c]> m)
  end.

(** [m.erase(key)]: removes the element and destroys its pointer. *)
Definition erase (kind : Kind) (key : string) : M unit :=
  let* m := read_cache kind in
  match m !! key with
  | Some v => write_cache kind (delete key m) >> sp_release v
  | None => ret tt
  end.

(** *** Logging *)

(** Modelled from the spec: [Log::warning(category, message...)] appends one
    warning entry to the log output and cannot fail. *)
Definition Log_warning (category : string) (message : list string) : M unit :=
  modify (fun w =>
    mkWorld (caches w) (use_count w) (destroyed w)
      (log_output w ++ [mkEntry Warning category message])).

(** The double-quote character, escaped in the C++ string literals. *)
Definition dquote : string := String (Ascii.ascii_of_nat 34) EmptyString.

(** What each diagnostic calls its kind. *)
Definition kind_name (kind : Kind) : string :=
  match kind with
  | VertexShader => "Vertex shader"
  | FragmentShader => "Fragment shader"
  | GeometryShader => "Geometry shader"
  | TesselationEvaluationShader => "Tesselation evaluation shader"
  | TesselationControlShader => "Tesselation control shader"
  | ComputeShader => "Compute shader"
  | ShaderProgram => "Shader program"
  end.

(** [log<Kind>AlreadyExists(key)] *)
Definition logAlreadyExists (kind : Kind) (key : string) : M unit :=
  Log_warning "shaderstore"
    [kind_name kind +:+ " with " +:+ dquote; key;
     dquote +:+ " key already exists."].

(** *** The member functions, once per kind *)

(** [<kind>Exists(key)] *)
Definition storeExists (kind : Kind) (key : string) : M bool :=
  let* m := read_cache kind in
  if find_is_end m key then ret false else ret true.

(** [get<Kind>(key)] *)
Definition storeGet (kind : Kind) (key : string) : M shared_ptr :=
  let* present := storeExists kind key in
  if negb present then ret nullptr
  else
    let* v := subscript kind key in
    sp_copy v.

(** [register<Kind>(key, const std::shared_ptr<..>&)] *)
Definition storeRegister (kind : Kind) (key : string) (h : shared_ptr)
    : M bool :=
  let* present := storeExists kind key in
  if present then logAlreadyExists kind key >> ret false
  else emplace kind key h >> ret true.

(** [register<Kind>] for a raw pointer: the temporary [shared_ptr] dies at the end
    of the full expression, after the delegated call has returned. *)
Definition storeRegisterRaw (kind : Kind) (key : string) (p : raw_ptr)
    : M bool :=
  let* tmp := sp_from_raw p in
  let* result := storeRegister kind key tmp in
  sp_release tmp >>
  ret result.

(** [delete<Kind>(key)] *)
Definition storeDelete (kind : Kind) (key : string) : M unit :=
  let* present := storeExists kind key in
  if negb present then ret tt
  else subscript_reset kind key >> erase kind key.

Definition vertexShaderExists := storeExists VertexShader.
Definition getVertexShader := storeGet VertexShader.
Definition registerVertexShader := storeRegister VertexShader.
Definition registerVertexShader_raw := storeRegisterRaw VertexShader.
Definition deleteVertexShader := storeDelete VertexShader.
Definition logVertexShaderAlreadyExists := logAlreadyExists VertexShader.

Definition fragmentShaderExists := storeExists FragmentShader.
Definition getFragmentShader := storeGet FragmentShader.
Definition registerFragmentShader := storeRegister FragmentShader.
Definition registerFragmentShader_raw := storeRegisterRaw FragmentShader.
Definition deleteFragmentShader := storeDelete FragmentShader.
Definition logFragmentShaderAlreadyExists := logAlreadyExists FragmentShader.

Definition geometryShaderExists := storeExists GeometryShader.
Definition getGeometryShader := storeGet GeometryShader.
Definition registerGeometryShader := storeRegister GeometryShader.
Definition registerGeometryShader_raw := storeRegisterRaw GeometryShader.
Definition deleteGeometryShader := storeDelete GeometryShader.
Definition logGeometryShaderAlreadyExists := logAlreadyExists GeometryShader.

Definition tesselationEvaluationShaderExists :=
  storeExists TesselationEvaluationShader.
Definition getTesselationEvaluationShader :=
  storeGet TesselationEvaluationShader.
Definition registerTesselationEvaluationShader :=
  storeRegister TesselationEvaluationShader.
Definition registerTesselationEvaluationShader_raw :=
  storeRegisterRaw TesselationEvaluationShader.
Definition deleteTesselationEvaluationShader :=
  storeDelete TesselationEvaluationShader.
Definition logTesselationEvaluationShaderAlreadyExists :=
  logAlreadyExists TesselationEvaluationShader.

Definition tesselationControlShaderExists :=
  storeExists TesselationControlShader.
Definition getTesselationControlShader := storeGet TesselationControlShader.
Definition registerTesselationControlShader :=
  storeRegister TesselationControlShader.
Definition registerTesselationControlShader_raw :=
  storeRegisterRaw TesselationControlShader.
Definition deleteTesselationControlShader :=
  storeDelete TesselationControlShader.
Definition logTesselationControlShaderAlreadyExists :=
  logAlreadyExists TesselationControlShader.

Definition computeShaderExists := storeExists ComputeShader.
Definition getComputeShader := storeGet ComputeShader.
Definition registerComputeShader := storeRegister ComputeShader.
Definition registerComputeShader_raw := storeRegisterRaw ComputeShader.
Definition deleteComputeShader := storeDelete ComputeShader.
Definition logComputeShaderAlreadyExists := logAlreadyExists ComputeShader.

Definition shaderProgramExists := storeExists ShaderProgram.
Definition getShaderProgram := storeGet ShaderProgram.
Definition registerShaderProgram := storeRegister ShaderProgram.
Definition registerShaderProgram_raw := storeRegisterRaw ShaderProgram.
Definition deleteShaderProgram := storeDelete ShaderProgram.
Definition logShaderProgramAlreadyExists := logAlreadyExists ShaderProgram.

(** The [shared_ptr] that [std::shared_ptr<T>(p)] yields, and the objects
    that die with its last owner. *)
Definition wrap (p : raw_ptr) : shared_ptr :=
  match p with
  | raw_null => nullptr
  | raw a => owns a
  end.

Definition objects_of (p : raw_ptr) : list addr :=
  match p with
  | raw_null => []
  | raw a => [a]
  end.

(** A raw pointer is solely owned when no [shared_ptr] owns its object. *)
Definition solely_owned (p : raw_ptr) (w : World) : Prop :=
  match p with
  | raw_null => True
  | raw a => use_count w !! a = None
  end.

(** An empty process: nothing cached, nothing allocated, nothing logged. *)
Definition empty_store : GLShaderStore := mkStore ∅ ∅ ∅ ∅ ∅ ∅ ∅.
Definition empty_world : World := mkWorld empty_store ∅ [] [].

(** A small populated process for the examples: two live objects, each
    with one outside owner, and nothing cached. *)
Definition two_objects : World :=
  mkWorld empty_store (<[1%positive := 1%nat]> (<[2%positive := 1%nat]> ∅))
    [] [].

Global Instance Kind_eq_dec : EqDecision Kind.
Proof. solve_decision. Defined.

Global Instance raw_ptr_eq_dec : EqDecision raw_ptr.
Proof. solve_decision. Defined.

(** *** Calls on the interface

    One call of a member function of the store; a result, if any, stays
    with the caller (the [shared_ptr] that [get] returns is a live owner). *)
Inductive Call : Type :=
  | CallExists (kind : Kind) (key : string)
  | CallGet (kind : Kind) (key : string)
  | CallRegister (kind : Kind) (key : string) (h : shared_ptr)
  | CallRegisterRaw (kind : Kind) (key : string) (p : raw_ptr)
  | CallDelete (kind : Kind) (key : string).

Global Instance Call_eq_dec : EqDecision Call.
Proof. solve_decision. Defined.

Definition call (c : Call) : M unit :=
  match c with
  | CallExists kind key => storeExists kind key >> ret tt
  | CallGet kind key => storeGet kind key >> ret tt
  | CallRegister kind key h => storeRegister kind key h >> ret tt
  | CallRegisterRaw kind key p => storeRegisterRaw kind key p >> ret tt
  | CallDelete kind key => storeDelete kind key
  end.

Definition call_kind (c : Call) : Kind :=
  match c with
  | CallExists kind _ | CallGet kind _ | CallRegister kind _ _
  | CallRegisterRaw kind _ _ | CallDelete kind _ => kind
  end.

Definition call_key (c : Call) : string :=
  match c with
  | CallExists _ key | CallGet _ key | CallRegister _ key _
  | CallRegisterRaw _ key _ | CallDelete _ key => key
  end.

(** A sequence of calls, first to last. *)
Fixpoint calls (cs : list Call) (w : World) : World :=
  match cs with
  | [] => w
  | c :: rest => calls rest (exec (call c) w)
  end.

(** A raw pointer may only be handed over while nothing owns its object. *)
Definition call_ok (c : Call) (w : World) : Prop :=
  match c with
  | CallRegisterRaw _ _ p => solely_owned p w
  | _ => True
  end.

Fixpoint calls_ok (cs : list Call) (w : World) : Prop :=
  match cs with
  | [] => True
  | c :: rest => call_ok c w /\ calls_ok rest (exec (call c) w)
  end.

(** *** Ownership accounting *)

(** The number of owners that the control block of [a] records. *)
Definition owners (a : addr) (w : World) : nat :=
  default 0 (use_count w !! a).

(** A handle is live when it is null or its object has an owner. *)
Definition live (h : shared_ptr) (w : World) : Prop :=
  match h with
  | nullptr => True
  | owns a => exists n : nat, use_count w !! a = Some (S n)
  end.

(** The number of keys of a map under which a handle to [a] is stored, and
    the same over the seven maps. *)
Definition occurrences (a : addr) (m : gmap string shared_ptr) : nat :=
  size (filter (fun kv : string * shared_ptr => kv.2 = owns a) m).

Definition stored_count (a : addr) (s : GLShaderStore) : nat :=
  occurrences a (m_vertexShaders s) +
  occurrences a (m_fragmentShaders s) +
  occurrences a (m_geometryShaders s) +
  occurrences a (m_tesselationEvaluationShaders s) +
  occurrences a (m_tesselationControlShaders s) +
  occurrences a (m_computeShaders s) +
  occurrences a (m_shaderPrograms s).

(** Every handle that the store holds is counted as an owner. *)
Definition well_owned (w : World) : Prop :=
  forall a : addr, stored_count a (caches w) <= owners a w.

(** What a call leaves under its own key in its own store, given what was
    there ([None]: the key was absent). *)
Definition entry_after (c : Call) (old : option shared_ptr)
    : option shared_ptr :=
  match c with
  | CallExists _ _ | CallGet _ _ => old
  | CallRegister _ _ h =>
      match old with Some v => Some v | None => Some h end
  | CallRegisterRaw _ _ p =>
      match old with Some v => Some v | None => Some (wrap p) end
  | CallDelete _ _ => None
  end.

End ShaderStore.

(** ** The clock *)

Module Clock.

Local Open Scope Z_scope.

(** [std::chrono::time_point<std::chrono::high_resolution_clock>]: a count
    of nanosecond ticks of the monotonic clock source. *)
Definition time_point : Type := Z.

(** The one data member that Clock.hpp declares. *)
Record Clock : Type := mkClock { m_resetTime : time_point }.

(** A member function runs against a reading [now] of the clock source and
    the object; it gives a result and the object afterwards.  A member
    function that Clock.hpp declares [const] gets the object read-only. *)
Definition Method (A : Type) : Type := time_point -> Clock -> A * Clock.

Definition const_method {A : Type} (body : time_point -> Clock -> A)
    : Method A :=
  fun now c => (body now c, c).

(** Modelled from the spec: Clock.cpp is not part of the sources at hand;
    the reset time is "created on construction (defaults to now)". *)
Definition Clock_new (now : time_point) : Clock := mkClock now.

(** Modelled from the spec: "returns the stored reset time point". *)
Definition getResetTime : Method time_point :=
  const_method (fun _ c => m_resetTime c).

(** Modelled from the spec: "returns time delta (floating or integral, per
    unit) between now and the last reset"; the floating result is an exact
    rational here, the integral ones truncate as [duration_cast] does. *)
Definition getElapsedSeconds : Method Q :=
  const_method (fun now c => Qmake (now - m_resetTime c) 1000000000%positive).

Definition getElapsedMilliseconds : Method Z :=
  const_method (fun now c => Z.quot (now - m_resetTime c) 1000000).

Definition getElapsedMicroseconds : Method Z :=
  const_method (fun now c => Z.quot (now - m_resetTime c) 1000).

Definition getElapsedNanoseconds : Method Z :=
  const_method (fun now c => now - m_resetTime c).

(** Modelled from the spec: "side effect only - sets reset time to current
    monotonic time". *)
Definition reset : Method unit :=
  fun now _ => (tt, mkClock now).



Definition copy_assign (other : Clock) : Method unit :=
  fun _ _ => (tt, mkClock (m_resetTime other)).

Definition move_assign (other : Clock) : Method unit :=
  fun _ _ => (tt, mkClock (m_resetTime other)).

(** Every member function that Clock.hpp declares for an existing clock,
    with its argument where it has one. *)
Inductive Member : Type :=
  | MoveAssign (other : Clock)
  | CopyAssign (other : Clock)
  | GetResetTime
  | GetElapsedSeconds
  | GetElapsedMilliseconds
  | GetElapsedMicroseconds
  | GetElapsedNanoseconds
  | Reset.

(** The clock after a call of a member function on it. *)
Definition invoke (m : Member) (now : time_point) (c : Clock) : Clock :=
  match m with
  | MoveAssign other => snd (move_assign other now c)
  | CopyAssign other => snd (copy_assign other now c)
  | GetResetTime => snd (getResetTime now c)
  | GetElapsedSeconds => snd (getElapsedSeconds now c)
  | GetElapsedMilliseconds => snd (getElapsedMilliseconds now c)
  | GetElapsedMicroseconds => snd (getElapsedMicroseconds now c)
  | GetElapsedNanoseconds => snd (getElapsedNanoseconds now c)
  | Reset => snd (reset now c)
  end.


End Clock.

(** ** The update loop of the game loop *)

Module GameLoop.

(** What the update thread carries from one iteration to the next: the
    accumulator of unconsumed time, and (as the observable effect) the
    deltas handed to the simulation update callback, oldest first. *)
Record UpdateState : Type := mkUpdate {
  accumulator : Q;
  updates : list Q
}.

(** Modelled from the spec: GameLoop.cpp is not part of the sources at hand;
    the tick interval is "1/tickRate" seconds. *)
Definition tickInterval (tickRate : Z) : Q := (1 / inject_Z tickRate)%Q.

(** Modelled from the spec: "while the accumulator exceeds the tick
    interval, invokes the simulation update callback once with a fixed
    delta and decrements the accumulator by one interval".  [fuel] bounds
    the number of loop tests; [None] means it ran out. *)
Fixpoint catchUp (fuel : nat) (interval : Q) (s : UpdateState)
    : option UpdateState :=
  match fuel with
  | O => None
  | S fuel' =>
      if Qlt_le_dec interval (accumulator s)
      then catchUp fuel' interval
             (mkUpdate (accumulator s - interval)%Q
                       (updates s ++ [interval]))
      else Some s
  end.

(** Modelled from the spec: "each iteration measures elapsed time via
    Clock, accumulates it", then catches up. *)
Definition iteration (fuel : nat) (interval elapsed : Q) (s : UpdateState)
    : option UpdateState :=
  catchUp fuel interval (mkUpdate (accumulator s + elapsed)%Q (updates s)).

(** The iterations the loop makes before it observes the stop signal, one
    per elapsed time that the clock measured. *)
Fixpoint updateLoop (fuel : nat) (interval : Q) (measured : list Q)
    (s : UpdateState) : option UpdateState :=
  match measured with
  | [] => Some s
  | elapsed :: rest =>
      match iteration fuel interval elapsed s with
      | Some s' => updateLoop fuel interval rest s'
      | None => None
      end
  end.

(** [GameLoop::update], started with nothing accumulated. *)
Definition update (fuel : nat) (tickRate : Z) (measured : list Q)
    : option UpdateState :=
  updateLoop fuel (tickInterval tickRate) measured (mkUpdate 0%Q []).

(** The seconds that the clock measured in total. *)
Definition total (measured : list Q) : Q :=
  fold_right Qplus 0%Q measured.

(** Time is neither lost nor invented: the time handed to the callback
    plus the time still in the accumulator. *)
Definition accounted (interval : Q) (s : UpdateState) : Q :=
  (inject_Z (Z.of_nat (length (updates s))) * interval + accumulator s)%Q.

End GameLoop.

(** * Properties of the shader store *)

Module ShaderStoreSpec.

Import ShaderStore.
Local Open Scope store_scope.

(** The field selected by a kind behaves like a record field. *)
Lemma cache_with_cache (kind : Kind) (m : gmap string shared_ptr)
    (s : GLShaderStore) :
  cache kind (with_cache kind m s) = m.
Proof. destruct kind; reflexivity. Qed.

Lemma with_cache_cache (kind : Kind) (s : GLShaderStore) :
  with_cache kind (cache kind s) s = s.
Proof. destruct kind, s; reflexivity. Qed.

Lemma with_cache_twice (kind : Kind) (m m' : gmap string shared_ptr)
    (s : GLShaderStore) :
  with_cache kind m (with_cache kind m' s) = with_cache kind m s.
Proof. destruct kind; reflexivity. Qed.

Lemma world_eta (w : World) :
  mkWorld (caches w) (use_count w) (destroyed w) (log_output w) = w.
Proof. destruct w; reflexivity. Qed.

(** Ownership bookkeeping never touches the maps or the log. *)
Lemma sp_copy_frame (h : shared_ptr) (w : World) :
  eval (sp_copy h) w = h /\
  caches (exec (sp_copy h) w) = caches w /\
  destroyed (exec (sp_copy h) w) = destroyed w /\
  log_output (exec (sp_copy h) w) = log_output w.
Proof. destruct h; repeat split; reflexivity. Qed.

Lemma sp_release_frame (h : shared_ptr) (w : World) :
  caches (exec (sp_release h) w) = caches w /\
  log_output (exec (sp_release h) w) = log_output w.
Proof.
  destruct h as [|a]; [split; reflexivity|].
  unfold exec, sp_release, modify; simpl.
  destruct (use_count w !! a) as [[|[|n]]|]; split; reflexivity.
Qed.

(** What each member function does, by cases on the lookup of the key. *)
Lemma storeExists_run (kind : Kind) (key : string) (w : World) :
  storeExists kind key w =
  (match cache kind (caches w) !! key with Some _ => true | None => false end,
   w).
Proof.
  unfold storeExists, read_cache, find_is_end, bind, gets, ret.
  destruct (cache kind (caches w) !! key); reflexivity.
Qed.

Lemma storeGet_run (kind : Kind) (key : string) (w : World) :
  storeGet kind key w =
  match cache kind (caches w) !! key with
  | Some v => sp_copy v w
  | None => (nullptr, w)
  end.
Proof.
  unfold storeGet, bind. rewrite storeExists_run.
  unfold subscript, read_cache, bind, gets, ret.
  destruct (cache kind (caches w) !! key) eqn:E; simpl; [|reflexivity].
  rewrite E. reflexivity.
Qed.

Lemma storeRegister_run (kind : Kind) (key : string) (h : shared_ptr)
    (w : World) :
  storeRegister kind key h w =
  match cache kind (caches w) !! key with
  | Some _ => (false, exec (logAlreadyExists kind key) w)
  | None =>
      (true,
       exec (write_cache kind (<[key := h]> (cache kind (caches w))))
            (exec (sp_copy h) w))
  end.
Proof.
  unfold storeRegister, bind. rewrite storeExists_run.
  destruct (cache kind (caches w) !! key) eqn:E; simpl; [reflexivity|].
  unfold emplace, read_cache, bind, gets, ret. rewrite E.
  destruct h; reflexivity.
Qed.

Lemma storeDelete_run (kind : Kind) (key : string) (w : World) :
  storeDelete kind key w =
  match cache kind (caches w) !! key with
  | Some v =>
      (tt,
       exec (write_cache kind (delete key (cache kind (caches w))))
            (exec (sp_release v) w))
  | None => (tt, w)
  end.
Proof.
  unfold storeDelete, bind. rewrite storeExists_run.
  destruct (cache kind (caches w) !! key) as [v|] eqn:E; simpl;
    [|reflexivity].
  unfold subscript_reset, subscript, erase, read_cache, write_cache, bind,
    gets, modify, ret, exec. rewrite E.
  destruct (sp_release v w) as [[] w1] eqn:R. simpl.
  assert (Hc : caches w1 = caches w).
  { pose proof (sp_release_frame v w) as [Hc _].
    unfold exec in Hc. rewrite R in Hc. exact Hc. }
  rewrite !cache_with_cache, lookup_insert_eq.
  cbn [caches use_count destroyed log_output].
  rewrite with_cache_twice, delete_insert_eq, Hc. reflexivity.
Qed.

Example end_to_end_scenario :
  let k := "basic.vert" in
  let '(r1, w1) := registerVertexShader k (owns 1) two_objects in
  let '(r2, w2) := registerVertexShader k (owns 2) w1 in
  let '(g1, w3) := getVertexShader k w2 in
  let w4 := exec (deleteVertexShader k) w3 in
  let '(g2, w5) := getVertexShader k w4 in
  (r1, r2, g1, g2, length (log_output w5)) =
  (true, false, owns 1, nullptr, 1%nat).
Proof. vm_compute. reflexivity. Qed.

(** C1. In every one of the seven stores, registering [h1] under an absent
    key inserts it and returns true; registering [h2] under the same key
    afterwards returns false, appends exactly one warning that names the
    kind and the key, changes nothing else, and [get] still yields [h1]. *)
Theorem register_never_overwrites (kind : Kind) (key : string)
    (h1 h2 : shared_ptr) (w : World) :
  cache kind (caches w) !! key = None ->
  let w1 := exec (storeRegister kind key h1) w in
  let w2 := exec (storeRegister kind key h2) w1 in
  eval (storeRegister kind key h1) w = true /\
  cache kind (caches w1) = <[key := h1]> (cache kind (caches w)) /\
  eval (storeRegister kind key h2) w1 = false /\
  log_output w2 =
    log_output w1 ++
    [mkEntry Warning "shaderstore"
       [kind_name kind +:+ " with " +:+ dquote; key;
        dquote +:+ " key already exists."]] /\
  caches w2 = caches w1 /\
  use_count w2 = use_count w1 /\
  destroyed w2 = destroyed w1 /\
  cache kind (caches w2) !! key = Some h1 /\
  eval (storeGet kind key) w2 = h1.
Proof.
  intros Habsent w1 w2.
  assert (H1 : storeRegister kind key h1 w =
               (true, exec (write_cache kind
                              (<[key := h1]> (cache kind (caches w))))
                           (exec (sp_copy h1) w))).
  { rewrite storeRegister_run, Habsent. reflexivity. }
  assert (Hc1 : cache kind (caches w1) = <[key := h1]> (cache kind (caches w))).
  { unfold w1, exec at 1. rewrite H1. simpl.
    unfold exec at 1, write_cache, modify. simpl. apply cache_with_cache. }
  assert (Hl1 : cache kind (caches w1) !! key = Some h1).
  { rewrite Hc1. apply lookup_insert_eq. }
  assert (H2 : storeRegister kind key h2 w1 =
               (false, exec (logAlreadyExists kind key) w1)).
  { rewrite storeRegister_run, Hl1. reflexivity. }
  assert (Hw2 : w2 = exec (logAlreadyExists kind key) w1).
  { unfold w2, exec at 1. rewrite H2. reflexivity. }
  assert (Hc2 : caches w2 = caches w1) by (rewrite Hw2; reflexivity).
  repeat split.
  - unfold eval. rewrite H1. reflexivity.
  - exact Hc1.
  - unfold eval. rewrite H2. reflexivity.
  - rewrite Hw2. reflexivity.
  - exact Hc2.
  - rewrite Hw2. reflexivity.
  - rewrite Hw2. reflexivity.
  - rewrite Hc2. exact Hl1.
  - unfold eval. rewrite storeGet_run, Hc2, Hl1.
    apply (sp_copy_frame h1 w2).
Qed.

Lemma register_never_overwrites_witness :
  let w1 := exec (storeRegister VertexShader "basic.vert" (owns 1)) two_objects in
  let w2 := exec (storeRegister VertexShader "basic.vert" (owns 2)) w1 in
  eval (storeRegister VertexShader "basic.vert" (owns 1)) two_objects = true /\
  cache VertexShader (caches w1) =
    <[ "basic.vert" := owns 1 ]> (cache VertexShader (caches two_objects)) /\
  eval (storeRegister VertexShader "basic.vert" (owns 2)) w1 = false /\
  log_output w2 =
    log_output w1 ++
    [mkEntry Warning "shaderstore"
       [kind_name VertexShader +:+ " with " +:+ dquote; "basic.vert";
        dquote +:+ " key already exists."]] /\
  caches w2 = caches w1 /\
  use_count w2 = use_count w1 /\
  destroyed w2 = destroyed w1 /\
  cache VertexShader (caches w2) !! "basic.vert" = Some (owns 1) /\
  eval (storeGet VertexShader "basic.vert") w2 = owns 1.
Proof.
  apply (register_never_overwrites VertexShader "basic.vert"
           (owns 1) (owns 2) two_objects).
  vm_compute. reflexivity.
Defined.

(** C4. In every store, [get] is a total function that yields the stored
    handle when the key is mapped and the null handle when it is not; it
    has no failure outcome. *)
Theorem get_returns_stored_or_null (kind : Kind) (key : string) (w : World) :
  eval (storeGet kind key) w = default nullptr (cache kind (caches w) !! key).
Proof.
  unfold eval. rewrite storeGet_run.
  destruct (cache kind (caches w) !! key) as [v|]; simpl; [|reflexivity].
  apply (sp_copy_frame v w).
Qed.

(** C10. In every store, [exists] leaves the whole process state as it
    was, and [get] leaves all seven maps (and the log and the set of
    destroyed objects) as they were: the subscript on the present-key path
    inserts nothing. *)
Theorem queries_preserve_store (kind : Kind) (key : string) (w : World) :
  exec (storeExists kind key) w = w /\
  caches (exec (storeGet kind key) w) = caches w /\
  destroyed (exec (storeGet kind key) w) = destroyed w /\
  log_output (exec (storeGet kind key) w) = log_output w.
Proof.
  split.
  - unfold exec. rewrite storeExists_run. reflexivity.
  - unfold exec. rewrite storeGet_run.
    destruct (cache kind (caches w) !! key) as [v|]; [|repeat split].
    destruct (sp_copy_frame v w) as (_ & Hc & Hd & Hl).
    unfold exec in Hc, Hd, Hl. repeat split; assumption.
Qed.

(** C5. In every store, the raw-pointer overload of [register] wraps the
    solely owned pointer in a [shared_ptr], delegates to the shared-handle
    overload and returns its result.  When the key is taken the result is
    false, the fresh object is destroyed, no owner of it is left, and the
    maps are as before; when the key is free the store becomes the one
    owner of the object and nothing is destroyed. *)
Theorem register_raw_takes_ownership (kind : Kind) (key : string)
    (p : raw_ptr) (w : World) :
  solely_owned p w ->
  let w' := exec (storeRegisterRaw kind key p) w in
  let r := eval (storeRegisterRaw kind key p) w in
  eval (sp_from_raw p) w = wrap p /\
  r = eval (storeRegister kind key (wrap p)) (exec (sp_from_raw p) w) /\
  match cache kind (caches w) !! key with
  | Some _ =>
      r = false /\
      destroyed w' = objects_of p ++ destroyed w /\
      use_count w' = use_count w /\
      caches w' = caches w
  | None =>
      r = true /\
      cache kind (caches w') = <[key := wrap p]> (cache kind (caches w)) /\
      destroyed w' = destroyed w /\
      forall a, p = raw a -> use_count w' !! a = Some 1%nat
  end.
Proof.
  intros Hfresh w' r. unfold w', r, eval, exec, storeRegisterRaw, bind.
  destruct p as [|a]; simpl in *.
  - unfold ret. rewrite storeRegister_run.
    destruct (cache kind (caches w) !! key) eqn:E; simpl.
    + repeat split; reflexivity.
    + unfold exec, write_cache, modify; simpl.
      rewrite cache_with_cache. repeat split; try reflexivity. discriminate.
  - unfold modify, ret. rewrite storeRegister_run. simpl.
    destruct (cache kind (caches w) !! key) eqn:E; simpl.
    + rewrite lookup_insert_eq. simpl.
      rewrite delete_insert_id by exact Hfresh. repeat split; reflexivity.
    + unfold exec, write_cache, modify; simpl.
      repeat (rewrite lookup_insert_eq; simpl).
      rewrite cache_with_cache.
      repeat split; try reflexivity.
      intros a' [= <-]. apply lookup_insert_eq.
Qed.

Lemma register_raw_takes_ownership_witness :
  let w0 := exec (storeRegister VertexShader "basic.vert" (owns 1)) two_objects in
  eval (storeRegisterRaw VertexShader "basic.vert" (raw 7)) w0 = false /\
  destroyed (exec (storeRegisterRaw VertexShader "basic.vert" (raw 7)) w0) =
    [7%positive] /\
  caches (exec (storeRegisterRaw VertexShader "basic.vert" (raw 7)) w0) =
    caches w0.
Proof.
  intros w0.
  pose proof (register_raw_takes_ownership VertexShader "basic.vert"
                (raw 7) w0) as H.
  assert (Hfresh : solely_owned (raw 7) w0) by (vm_compute; reflexivity).
  specialize (H Hfresh). simpl in H.
  destruct H as (_ & _ & H).
  change (cache VertexShader (caches w0) !! "basic.vert")
    with (Some (owns 1)) in H.
  destruct H as (Hr & Hd & _ & Hc).
  repeat split; assumption.
Defined.

(** C6. In every store, [delete] of an absent key changes nothing at all
    (so neither the size nor the contents of the store), and two deletes of
    a key in a row leave the same state as one. *)
Theorem delete_absent_noop_and_idempotent (kind : Kind) (key : string)
    (w : World) :
  (cache kind (caches w) !! key = None ->
   exec (storeDelete kind key) w = w /\
   size (cache kind (caches (exec (storeDelete kind key) w))) =
     size (cache kind (caches w))) /\
  exec (storeDelete kind key) (exec (storeDelete kind key) w) =
    exec (storeDelete kind key) w.
Proof.
  assert (Hnoop : forall w0, cache kind (caches w0) !! key = None ->
                             exec (storeDelete kind key) w0 = w0).
  { intros w0 H0. unfold exec. rewrite storeDelete_run, H0. reflexivity. }
  split.
  - intros Habsent. rewrite (Hnoop w Habsent). split; reflexivity.
  - apply Hnoop. unfold exec at 1. rewrite storeDelete_run.
    destruct (cache kind (caches w) !! key) as [v|] eqn:E; simpl;
      [|exact E].
    unfold exec at 1, write_cache, modify; simpl.
    rewrite cache_with_cache. apply lookup_delete_eq.
Qed.

Lemma delete_absent_noop_and_idempotent_witness :
  exec (storeDelete FragmentShader "basic.frag") two_objects = two_objects /\
  size (cache FragmentShader
          (caches (exec (storeDelete FragmentShader "basic.frag") two_objects))) =
    size (cache FragmentShader (caches two_objects)).
Proof.
  apply (proj1 (delete_absent_noop_and_idempotent FragmentShader "basic.frag"
                  two_objects)).
  vm_compute. reflexivity.
Defined.

(** C7. In every store, after [delete] the key is unmapped whether or not
    it was mapped before: [exists] returns false and [get] the null
    handle. *)
Theorem delete_removes_mapping (kind : Kind) (key : string) (w : World) :
  let w' := exec (storeDelete kind key) w in
  cache kind (caches w') !! key = None /\
  eval (storeExists kind key) w' = false /\
  eval (storeGet kind key) w' = nullptr.
Proof.
  intros w'.
  assert (Hgone : cache kind (caches w') !! key = None).
  { unfold w', exec at 1. rewrite storeDelete_run.
    destruct (cache kind (caches w) !! key) as [v|] eqn:E; simpl;
      [|exact E].
    unfold exec at 1, write_cache, modify; simpl.
    rewrite cache_with_cache. apply lookup_delete_eq. }
  split; [exact Hgone|]. unfold eval.
  rewrite storeExists_run, storeGet_run, Hgone. split; reflexivity.
Qed.

(** C9. In every store, registering the null handle under an absent key
    succeeds: it returns true, [exists] then returns true, and [get]
    returns the null handle, which is also what [get] returned while the
    key was missing. *)
Theorem register_null_handle (kind : Kind) (key : string) (w : World) :
  cache kind (caches w) !! key = None ->
  let w' := exec (storeRegister kind key nullptr) w in
  eval (storeRegister kind key nullptr) w = true /\
  cache kind (caches w') !! key = Some nullptr /\
  eval (storeExists kind key) w' = true /\
  eval (storeGet kind key) w' = nullptr /\
  eval (storeExists kind key) w = false /\
  eval (storeGet kind key) w = eval (storeGet kind key) w'.
Proof.
  intros Habsent w'.
  assert (Hl : cache kind (caches w') !! key = Some nullptr).
  { unfold w', exec at 1. rewrite storeRegister_run, Habsent. simpl.
    unfold exec at 1, write_cache, modify; simpl.
    rewrite cache_with_cache. apply lookup_insert_eq. }
  unfold eval.
  rewrite !storeExists_run, !storeGet_run, storeRegister_run, Hl, Habsent.
  repeat split; reflexivity.
Qed.

Lemma register_null_handle_witness :
  let w' := exec (storeRegister ShaderProgram "basic" nullptr) empty_world in
  eval (storeRegister ShaderProgram "basic" nullptr) empty_world = true /\
  cache ShaderProgram (caches w') !! "basic" = Some nullptr /\
  eval (storeExists ShaderProgram "basic") w' = true /\
  eval (storeGet ShaderProgram "basic") w' = nullptr /\
  eval (storeExists ShaderProgram "basic") empty_world = false /\
  eval (storeGet ShaderProgram "basic") empty_world =
    eval (storeGet ShaderProgram "basic") w'.
Proof.
  apply (register_null_handle ShaderProgram "basic" empty_world).
  vm_compute. reflexivity.
Defined.

End ShaderStoreSpec.

(** * Properties of the clock *)

Module ClockSpec.

Import Clock.

Example elapsed_after_one_and_a_half_seconds :
  let c := Clock_new 250%Z in
  (fst (getElapsedMilliseconds 1500000250%Z c),
   fst (getElapsedMicroseconds 1500000250%Z c),
   fst (getElapsedNanoseconds 1500000250%Z c),
   fst (getResetTime 1500000250%Z c)) =
  (1500%Z, 1500000%Z, 1500000000%Z, 250%Z).
Proof. reflexivity. Qed.



Example assignment_then_elapsed :
  let c := invoke (CopyAssign (Clock_new 7%Z)) 100%Z (Clock_new 0%Z) in
  (m_resetTime c, fst (getElapsedNanoseconds 100%Z c)) = (7%Z, 93%Z).
Proof. reflexivity. Qed.

End ClockSpec.

(** * Properties of the update loop *)

Module GameLoopSpec.

Import GameLoop.
Local Open Scope Q_scope.

Lemma inject_succ (n : nat) :
  inject_Z (Z.of_nat (S n)) == inject_Z (Z.of_nat n) + 1.
Proof. rewrite Nat2Z.inj_succ. unfold Z.succ. rewrite inject_Z_plus. reflexivity. Qed.

Lemma total_nonneg (measured : list Q) :
  Forall (fun e => 0 <= e) measured -> 0 <= total measured.
Proof.
  induction 1 as [|e es He _ IH]; [apply Qle_refl|].
  change (0 <= e + total es). cbv beta in He. lra.
Qed.

(** The inner loop ends, with an accumulator between zero and one interval,
    whenever the fuel covers the ticks that are due. *)
Lemma catchUp_returns (fuel : nat) (interval : Q) :
  0 < interval ->
  forall s : UpdateState,
    0 <= accumulator s ->
    accumulator s < inject_Z (Z.of_nat fuel) * interval ->
    exists s' : UpdateState,
      catchUp fuel interval s = Some s' /\
      accounted interval s' == accounted interval s /\
      0 <= accumulator s' /\ accumulator s' <= interval /\
      (Forall (fun d => d = interval) (updates s) ->
       Forall (fun d => d = interval) (updates s')).
Proof.
  intros Hpos. induction fuel as [|fuel IH]; intros s Hge Hlt.
  - exfalso. change (inject_Z (Z.of_nat 0)) with 0 in Hlt. lra.
  - simpl. destruct (Qlt_le_dec interval (accumulator s)) as [Hdue|Hdone].
    + pose proof (inject_succ fuel) as Hs.
      destruct (IH (mkUpdate (accumulator s - interval)
                             (updates s ++ [interval]))) as (s' & Hrun & Hacc & H0 & H1 & Hall).
      * simpl. lra.
      * simpl. rewrite Hs in Hlt. lra.
      * exists s'. split; [exact Hrun|]. split; [|split; [exact H0|split; [exact H1|]]].
        -- rewrite Hacc. unfold accounted. simpl.
           rewrite length_app. simpl. rewrite Nat.add_1_r, inject_succ. lra.
        -- intros Hold. apply Hall. simpl. apply Forall_app. split; [exact Hold|].
           constructor; [reflexivity|constructor].
    + exists s. split; [reflexivity|]. split; [reflexivity|].
      split; [exact Hge|]. split; [exact Hdone|]. trivial.
Qed.

(** The loop as a whole returns when the fuel covers one interval more
    than all the time measured, and accounts for all of that time. *)
Lemma updateLoop_returns (fuel : nat) (interval : Q) :
  0 < interval ->
  forall (measured : list Q) (s : UpdateState),
    Forall (fun e => 0 <= e) measured ->
    0 <= accumulator s -> accumulator s <= interval ->
    interval + total measured < inject_Z (Z.of_nat fuel) * interval ->
    exists s' : UpdateState,
      updateLoop fuel interval measured s = Some s' /\
      accounted interval s' == accounted interval s + total measured /\
      0 <= accumulator s' /\ accumulator s' <= interval /\
      (Forall (fun d => d = interval) (updates s) ->
       Forall (fun d => d = interval) (updates s')).
Proof.
  intros Hpos measured.
  induction measured as [|e es IH]; intros s Hall Hge Hle Hfuel.
  - exists s. simpl. split; [reflexivity|]. split; [lra|].
    split; [exact Hge|]. split; [exact Hle|]. trivial.
  - inversion Hall as [|e' es' He Hes]; subst. cbv beta in He.
    pose proof (total_nonneg es Hes) as Hrest.
    change (total (e :: es)) with (e + total es) in *.
    destruct (catchUp_returns fuel interval Hpos
                (mkUpdate (accumulator s + e) (updates s)))
      as (s1 & Hrun1 & Hacc1 & H0 & H1 & Hd1).
    + simpl. lra.
    + simpl. lra.
    + destruct (IH s1 Hes H0 H1) as (s' & Hrun & Hacc & H0' & H1' & Hd').
      * lra.
      * exists s'. simpl. unfold iteration. rewrite Hrun1.
        split; [exact Hrun|]. split; [|split; [exact H0'|split; [exact H1'|]]].
        -- rewrite Hacc, Hacc1. unfold accounted. simpl. lra.
        -- intros Hold. apply Hd', Hd1. exact Hold.
Qed.

(** C2. For a tick rate [R > 0] and non-negative elapsed times measured by
    the clock that add up to [T] seconds, the update loop started with an
    empty accumulator returns (given enough fuel for its inner loop) after
    invoking the update callback between [ceil(R*T) - 1] and
    [ceil(R*T) + 1] times, each time with the delta [1/R]. *)
Theorem update_fires_at_tick_rate (tickRate : Z) (measured : list Q) :
  (0 < tickRate)%Z ->
  Forall (fun e => 0 <= e) measured ->
  exists fuel0 : nat, forall fuel : nat, (fuel0 <= fuel)%nat ->
    exists s : UpdateState,
      update fuel tickRate measured = Some s /\
      (Qceiling (inject_Z tickRate * total measured) - 1 <=
         Z.of_nat (length (updates s)) <=
       Qceiling (inject_Z tickRate * total measured) + 1)%Z /\
      Forall (fun d => d = tickInterval tickRate) (updates s).
Proof.
  intros HR Hall.
  set (R := inject_Z tickRate). set (T := total measured).
  set (I := tickInterval tickRate).
  assert (HRpos : 0 < R).
  { unfold R. change 0 with (inject_Z 0). rewrite <- Zlt_Qlt. exact HR. }
  assert (HI : I == / R) by (unfold I, tickInterval, Qdiv; fold R; ring).
  assert (HIpos : 0 < I) by (rewrite HI; apply Qinv_lt_0_compat; exact HRpos).
  assert (HRI : R * I == 1).
  { rewrite HI. apply Qmult_inv_r. lra. }
  pose proof (total_nonneg measured Hall) as HT. fold T in HT.
  pose proof (Qle_ceiling (R * T)) as Hceil.
  pose proof (Qceiling_lt (R * T)) as Hceil'.
  assert (HTI : T == (R * T) * I).
  { transitivity (T * (R * I)); [rewrite HRI; ring | ring]. }
  exists (Z.to_nat (Qceiling (R * T)) + 2)%nat. intros fuel Hfuel.
  assert (Hc0 : (0 <= Qceiling (R * T))%Z).
  { rewrite Zle_Qle. apply Qle_trans with (R * T); [|exact Hceil].
    apply Qmult_le_0_compat; lra. }
  assert (HfuelQ : inject_Z (Qceiling (R * T)) + 2 <= inject_Z (Z.of_nat fuel)).
  { change 2 with (inject_Z 2). rewrite <- inject_Z_plus, <- Zle_Qle. lia. }
  destruct (updateLoop_returns fuel I HIpos measured (mkUpdate 0 []) Hall)
    as (s & Hrun & Hacc & H0 & H1 & Hd).
  - simpl. lra.
  - simpl. lra.
  - fold T. rewrite HTI at 1.
    apply Qlt_le_trans with ((inject_Z (Qceiling (R * T)) + 2) * I).
    + assert (R * T * I <= inject_Z (Qceiling (R * T)) * I)
        by (apply Qmult_le_compat_r; lra).
      lra.
    + apply Qmult_le_compat_r; lra.
  - exists s. split; [exact Hrun|]. split; [|apply Hd; constructor].
    unfold accounted in Hacc. simpl in Hacc. fold T in Hacc.
    set (N := inject_Z (Z.of_nat (length (updates s)))) in *.
    assert (HN : N + accumulator s * R == R * T).
    { transitivity ((N * I + accumulator s) * R + N * (1 - R * I));
        [ring | rewrite Hacc, HRI; ring]. }
    assert (Ha0 : 0 <= accumulator s * R)
      by (apply Qmult_le_0_compat; lra).
    assert (Ha1 : accumulator s * R <= 1).
    { apply Qle_trans with (I * R); [apply Qmult_le_compat_r; lra|].
      rewrite Qmult_comm, HRI. lra. }
    fold R T. split.
    + apply Z.lt_succ_r. rewrite Zlt_Qlt.
      unfold Z.succ. rewrite inject_Z_plus. fold N.
      change (inject_Z 1) with 1. lra.
    + rewrite Zle_Qle, inject_Z_plus. fold N.
      change (inject_Z 1) with 1. lra.
Qed.

Lemma update_fires_at_tick_rate_witness :
  exists fuel0 : nat, forall fuel : nat, (fuel0 <= fuel)%nat ->
    exists s : UpdateState,
      update fuel 50%Z [1%Q; 1%Q] = Some s /\
      (Qceiling (inject_Z 50%Z * total [1%Q; 1%Q]) - 1 <=
         Z.of_nat (length (updates s)) <=
       Qceiling (inject_Z 50%Z * total [1%Q; 1%Q]) + 1)%Z /\
      Forall (fun d => d = tickInterval 50%Z) (updates s).
Proof.
  apply (update_fires_at_tick_rate 50%Z [1%Q; 1%Q]).
  - reflexivity.
  - repeat constructor; discriminate.
Defined.

Example two_seconds_at_fifty_ticks :
  option_map (fun s => length (updates s)) (update 200 50%Z [1%Q; 1%Q]) = Some 99%nat.
Proof. vm_compute. reflexivity. Qed.

End GameLoopSpec.

(** * Further laws of the shader store *)

Module ShaderStoreLaws.

Import ShaderStore ShaderStoreSpec.
Local Open Scope store_scope.

Lemma cache_with_cache_ne (kind kind' : Kind) (m : gmap string shared_ptr)
    (s : GLShaderStore) :
  kind <> kind' -> cache kind' (with_cache kind m s) = cache kind' s.
Proof. destruct kind, kind'; intros H; try reflexivity; contradiction. Qed.

Lemma sp_from_raw_frame (p : raw_ptr) (w : World) :
  eval (sp_from_raw p) w = wrap p /\
  caches (exec (sp_from_raw p) w) = caches w /\
  destroyed (exec (sp_from_raw p) w) = destroyed w /\
  log_output (exec (sp_from_raw p) w) = log_output w.
Proof. destruct p; repeat split; reflexivity. Qed.

Lemma storeRegisterRaw_run (kind : Kind) (key : string) (p : raw_ptr)
    (w : World) :
  storeRegisterRaw kind key p w =
  (eval (storeRegister kind key (wrap p)) (exec (sp_from_raw p) w),
   exec (sp_release (wrap p))
     (exec (storeRegister kind key (wrap p)) (exec (sp_from_raw p) w))).
Proof.
  unfold storeRegisterRaw, bind, eval, exec.
  destruct p as [|a]; simpl.
  - unfold ret. destruct (storeRegister kind key nullptr w); reflexivity.
  - unfold modify, ret.
    destruct (storeRegister kind key (owns a) _) as [r w2]. simpl.
    reflexivity.
Qed.

(** What one call does to the seven maps. *)
Lemma caches_register (kind : Kind) (key : string) (h : shared_ptr)
    (w : World) :
  caches (exec (storeRegister kind key h) w) =
  match cache kind (caches w) !! key with
  | Some _ => caches w
  | None => with_cache kind (<[key := h]> (cache kind (caches w))) (caches w)
  end.
Proof.
  unfold exec. rewrite storeRegister_run.
  destruct (cache kind (caches w) !! key); [reflexivity|]. simpl.
  unfold exec, write_cache, modify; simpl.
  destruct (sp_copy_frame h w) as (_ & Hc & _). unfold exec in Hc.
  rewrite Hc. reflexivity.
Qed.

Lemma caches_register_raw (kind : Kind) (key : string) (p : raw_ptr)
    (w : World) :
  caches (exec (storeRegisterRaw kind key p) w) =
  match cache kind (caches w) !! key with
  | Some _ => caches w
  | None =>
      with_cache kind (<[key := wrap p]> (cache kind (caches w))) (caches w)
  end.
Proof.
  unfold exec at 1. rewrite storeRegisterRaw_run. simpl.
  destruct (sp_release_frame (wrap p)
              (exec (storeRegister kind key (wrap p))
                    (exec (sp_from_raw p) w))) as [Hc _].
  rewrite Hc, caches_register.
  destruct (sp_from_raw_frame p w) as (_ & Hc' & _). rewrite Hc'.
  reflexivity.
Qed.

Lemma caches_delete (kind : Kind) (key : string) (w : World) :
  caches (exec (storeDelete kind key) w) =
  with_cache kind (delete key (cache kind (caches w))) (caches w).
Proof.
  unfold exec at 1. rewrite storeDelete_run.
  destruct (cache kind (caches w) !! key) as [v|] eqn:E; simpl.
  - destruct (sp_release_frame v w) as [Hc _]. unfold exec in *.
    unfold write_cache, modify; simpl. rewrite Hc. reflexivity.
  - rewrite delete_id by exact E. symmetry. apply with_cache_cache.
Qed.

Lemma caches_get (kind : Kind) (key : string) (w : World) :
  caches (exec (storeGet kind key) w) = caches w.
Proof.
  unfold exec. rewrite storeGet_run.
  destruct (cache kind (caches w) !! key) as [v|]; [|reflexivity].
  apply (sp_copy_frame v w).
Qed.

Lemma caches_exists (kind : Kind) (key : string) (w : World) :
  caches (exec (storeExists kind key) w) = caches w.
Proof. unfold exec. rewrite storeExists_run. reflexivity. Qed.

Lemma exec_then_ret {A : Type} (c : M A) (w : World) :
  exec (c >> ret tt) w = exec c w.
Proof. unfold exec, bind, ret. destruct (c w). reflexivity. Qed.

Lemma caches_call (c : Call) (w : World) :
  caches (exec (call c) w) =
  match c with
  | CallExists _ _ | CallGet _ _ => caches w
  | CallRegister kind key h =>
      match cache kind (caches w) !! key with
      | Some _ => caches w
      | None =>
          with_cache kind (<[key := h]> (cache kind (caches w))) (caches w)
      end
  | CallRegisterRaw kind key p =>
      match cache kind (caches w) !! key with
      | Some _ => caches w
      | None =>
          with_cache kind (<[key := wrap p]> (cache kind (caches w)))
            (caches w)
      end
  | CallDelete kind key =>
      with_cache kind (delete key (cache kind (caches w))) (caches w)
  end.
Proof.
  destruct c; simpl; rewrite ?exec_then_ret.
  - apply caches_exists.
  - apply caches_get.
  - apply caches_register.
  - apply caches_register_raw.
  - apply caches_delete.
Qed.

Lemma call_other_kind (c : Call) (kind' : Kind) (w : World) :
  call_kind c <> kind' ->
  cache kind' (caches (exec (call c) w)) = cache kind' (caches w).
Proof.
  intros Hne. rewrite caches_call.
  destruct c as [k key|k key|k key h|k key p|k key]; simpl in Hne;
    try reflexivity.
  - destruct (cache k (caches w) !! key); [reflexivity|].
    apply cache_with_cache_ne, Hne.
  - destruct (cache k (caches w) !! key); [reflexivity|].
    apply cache_with_cache_ne, Hne.
  - apply cache_with_cache_ne, Hne.
Qed.

Lemma call_other_key (c : Call) (kind' : Kind) (key' : string) (w : World) :
  call_key c <> key' ->
  cache kind' (caches (exec (call c) w)) !! key' =
  cache kind' (caches w) !! key'.
Proof.
  intros Hne.
  destruct (decide (call_kind c = kind')) as [<-|Hk];
    [|rewrite call_other_kind by exact Hk; reflexivity].
  rewrite caches_call.
  destruct c as [k key|k key|k key h|k key p|k key]; simpl in *;
    try reflexivity.
  - destruct (cache k (caches w) !! key); [reflexivity|].
    rewrite cache_with_cache. apply lookup_insert_ne, Hne.
  - destruct (cache k (caches w) !! key); [reflexivity|].
    rewrite cache_with_cache. apply lookup_insert_ne, Hne.
  - rewrite cache_with_cache. apply lookup_delete_ne, Hne.
Qed.

(** X1. A call on the store of one kind leaves the maps of the other six
    kinds exactly as they were. *)
Theorem stores_are_independent (c : Call) (kind' : Kind) (w : World) :
  call_kind c <> kind' ->
  cache kind' (caches (exec (call c) w)) = cache kind' (caches w).
Proof. apply call_other_kind. Qed.

Lemma stores_are_independent_witness :
  cache FragmentShader
    (caches (exec (call (CallRegister VertexShader "basic" (owns 1)))
                  two_objects)) =
  cache FragmentShader (caches two_objects).
Proof.
  apply (stores_are_independent (CallRegister VertexShader "basic" (owns 1))
           FragmentShader two_objects).
  discriminate.
Defined.

(** X2. A call for one key leaves what every other key maps to, in every
    store, as it was. *)
Theorem other_keys_untouched (c : Call) (kind' : Kind) (key' : string)
    (w : World) :
  call_key c <> key' ->
  cache kind' (caches (exec (call c) w)) !! key' =
  cache kind' (caches w) !! key'.
Proof. apply call_other_key. Qed.

Lemma other_keys_untouched_witness :
  cache VertexShader
    (caches (exec (call (CallDelete VertexShader "basic"))
                  (exec (storeRegister VertexShader "other" (owns 2))
                        two_objects))) !! "other" =
  cache VertexShader
    (caches (exec (storeRegister VertexShader "other" (owns 2))
                  two_objects)) !! "other".
Proof.
  apply (other_keys_untouched (CallDelete VertexShader "basic")
           VertexShader "other").
  discriminate.
Defined.

(** X3. Once a key maps to a handle, it maps to that same handle after any
    sequence of calls that does not delete that key from that store. *)
Theorem registered_handle_stable (kind : Kind) (key : string)
    (h : shared_ptr) (cs : list Call) (w : World) :
  cache kind (caches w) !! key = Some h ->
  Forall (fun c => c <> CallDelete kind key) cs ->
  cache kind (caches (calls cs w)) !! key = Some h.
Proof.
  intros Hin Hcs. revert w Hin.
  induction Hcs as [|c cs Hc _ IH]; intros w Hin; [exact Hin|].
  simpl. apply IH.
  destruct (decide (call_kind c = kind)) as [Hk|Hk];
    [|rewrite call_other_kind by exact Hk; exact Hin].
  destruct (decide (call_key c = key)) as [Hy|Hy];
    [|rewrite call_other_key by exact Hy; exact Hin].
  rewrite caches_call.
  destruct c as [k y|k y|k y h'|k y p|k y]; simpl in Hk, Hy; subst k y;
    try exact Hin.
  - rewrite Hin. exact Hin.
  - rewrite Hin. exact Hin.
  - contradiction Hc. reflexivity.
Qed.

Lemma registered_handle_stable_witness :
  let w := exec (storeRegister VertexShader "basic" (owns 1)) two_objects in
  cache VertexShader
    (caches (calls [CallRegister VertexShader "basic" (owns 2);
                    CallDelete FragmentShader "basic";
                    CallRegisterRaw VertexShader "basic" (raw 9);
                    CallGet VertexShader "basic"] w)) !! "basic" =
  Some (owns 1).
Proof.
  intros w.
  apply (registered_handle_stable VertexShader "basic" (owns 1)).
  - vm_compute. reflexivity.
  - repeat constructor; discriminate.
Defined.

(** X4. Registering a live handle under an absent key and then deleting
    that key gives back the state before the two calls: maps, use counts,
    destroyed objects and log. *)
Theorem register_then_delete_restores (kind : Kind) (key : string)
    (h : shared_ptr) (w : World) :
  cache kind (caches w) !! key = None ->
  live h w ->
  exec (storeDelete kind key) (exec (storeRegister kind key h) w) = w.
Proof.
  intros Habsent Hlive.
  unfold exec at 2. rewrite storeRegister_run, Habsent. simpl.
  unfold exec at 1. rewrite storeDelete_run.
  destruct h as [|a]; simpl in *.
  - unfold exec, write_cache, modify, ret; simpl.
    rewrite cache_with_cache, lookup_insert_eq. simpl.
    rewrite with_cache_twice, delete_insert_id by exact Habsent.
    rewrite with_cache_cache. apply world_eta.
  - destruct Hlive as [n Hn].
    unfold exec, write_cache, modify, ret, bind; simpl.
    rewrite cache_with_cache, lookup_insert_eq. simpl.
    rewrite Hn. simpl. rewrite lookup_insert_eq. simpl.
    rewrite with_cache_twice, delete_insert_id by exact Habsent.
    rewrite with_cache_cache, insert_insert_eq, (insert_id _ _ _ Hn).
    apply world_eta.
Qed.

Lemma register_then_delete_restores_witness :
  exec (storeDelete ComputeShader "blur")
       (exec (storeRegister ComputeShader "blur" (owns 2)) two_objects) =
  two_objects.
Proof.
  apply (register_then_delete_restores ComputeShader "blur" (owns 2)
           two_objects).
  - vm_compute. reflexivity.
  - exists 0%nat. vm_compute. reflexivity.
Defined.

(** X5. Handing a solely owned raw pointer to the store under an absent key
    and then deleting that key destroys the object: the maps and the use
    counts are as before, and the object has joined the destroyed ones. *)
Theorem register_raw_then_delete_destroys (kind : Kind) (key : string)
    (p : raw_ptr) (w : World) :
  cache kind (caches w) !! key = None ->
  solely_owned p w ->
  let w' := exec (storeDelete kind key)
                 (exec (storeRegisterRaw kind key p) w) in
  caches w' = caches w /\
  use_count w' = use_count w /\
  destroyed w' = objects_of p ++ destroyed w /\
  log_output w' = log_output w.
Proof.
  intros Habsent Hfresh w'.
  assert (H1 : exec (storeRegisterRaw kind key p) w =
               exec (sp_release (wrap p))
                 (exec (write_cache kind
                          (<[key := wrap p]> (cache kind (caches w))))
                    (exec (sp_copy (wrap p)) (exec (sp_from_raw p) w)))).
  { unfold exec at 1. rewrite storeRegisterRaw_run. simpl. f_equal.
    unfold exec at 1. rewrite storeRegister_run.
    rewrite (proj1 (proj2 (sp_from_raw_frame p w))), Habsent. reflexivity. }
  assert (H2 : w' = exec (write_cache kind (cache kind (caches w)))
                      (exec (sp_release (wrap p))
                         (exec (storeRegisterRaw kind key p) w))).
  { unfold w', exec at 1. rewrite storeDelete_run, caches_register_raw.
    rewrite Habsent, cache_with_cache, lookup_insert_eq. simpl.
    rewrite delete_insert_id by exact Habsent. reflexivity. }
  rewrite H2, H1. clear H1 H2 w'.
  destruct p as [|a]; simpl in *.
  - unfold exec, write_cache, modify, ret; simpl.
    rewrite with_cache_twice, with_cache_cache. repeat split; reflexivity.
  - unfold exec, write_cache, modify, ret, bind; simpl.
    repeat (rewrite lookup_insert_eq; simpl).
    rewrite with_cache_twice, with_cache_cache.
    repeat split; try reflexivity.
    rewrite !delete_insert_eq. apply delete_id, Hfresh.
Qed.

Lemma register_raw_then_delete_destroys_witness :
  let w' := exec (storeDelete ShaderProgram "phong")
                 (exec (storeRegisterRaw ShaderProgram "phong" (raw 5))
                       two_objects) in
  caches w' = caches two_objects /\
  use_count w' = use_count two_objects /\
  destroyed w' = objects_of (raw 5) ++ destroyed two_objects /\
  log_output w' = log_output two_objects.
Proof.
  apply (register_raw_then_delete_destroys ShaderProgram "phong" (raw 5)
           two_objects).
  - vm_compute. reflexivity.
  - vm_compute. reflexivity.
Defined.

(** X6. Deleting a key that maps to a handle drops exactly the store's
    reference to the object: with other owners left the count goes down by
    one and nothing is destroyed; with none left the object is destroyed
    and its control block freed.  The log is not written. *)
Theorem delete_releases_one_reference (kind : Kind) (key : string)
    (a : addr) (n : nat) (w : World) :
  cache kind (caches w) !! key = Some (owns a) ->
  use_count w !! a = Some (S n) ->
  let w' := exec (storeDelete kind key) w in
  use_count w' =
    match n with
    | O => delete a (use_count w)
    | S _ => <[a := n]> (use_count w)
    end /\
  destroyed w' =
    match n with
    | O => a :: destroyed w
    | S _ => destroyed w
    end /\
  log_output w' = log_output w.
Proof.
  intros Hin Hcount w'.
  assert (Hw' : w' = exec (write_cache kind
                             (delete key (cache kind (caches w))))
                       (exec (sp_release (owns a)) w)).
  { unfold w', exec at 1. rewrite storeDelete_run, Hin. reflexivity. }
  rewrite Hw'. unfold exec, write_cache, modify; simpl. rewrite Hcount.
  destruct n; repeat split; reflexivity.
Qed.

Lemma delete_releases_one_reference_witness :
  let w := exec (storeRegister GeometryShader "fur" (owns 1)) two_objects in
  let w' := exec (storeDelete GeometryShader "fur") w in
  use_count w' = <[1%positive := 1%nat]> (use_count w) /\
  destroyed w' = destroyed w /\
  log_output w' = log_output w.
Proof.
  intros w.
  apply (delete_releases_one_reference GeometryShader "fur" 1%positive 1%nat w).
  - vm_compute. reflexivity.
  - vm_compute. reflexivity.
Defined.

(** X7. The handle that [get] returns shares ownership: when the key is
    deleted afterwards the object is not destroyed and keeps as many
    owners as it had before the [get], although the key is gone. *)
Theorem get_result_survives_delete (kind : Kind) (key : string)
    (a : addr) (n : nat) (w : World) :
  cache kind (caches w) !! key = Some (owns a) ->
  use_count w !! a = Some (S n) ->
  let w' := exec (storeDelete kind key) (exec (storeGet kind key) w) in
  eval (storeGet kind key) w = owns a /\
  use_count w' !! a = Some (S n) /\
  destroyed w' = destroyed w /\
  eval (storeExists kind key) w' = false.
Proof.
  intros Hin Hcount w'.
  assert (Hg : storeGet kind key w = sp_copy (owns a) w)
    by (rewrite storeGet_run, Hin; reflexivity).
  assert (Hin1 : cache kind (caches (exec (storeGet kind key) w)) !! key =
                 Some (owns a)) by (rewrite caches_get; exact Hin).
  split; [unfold eval; rewrite Hg; reflexivity|].
  assert (Hw' : w' = exec (write_cache kind
                             (delete key (cache kind (caches w))))
                       (exec (sp_release (owns a))
                          (exec (sp_copy (owns a)) w))).
  { unfold w', exec at 1. rewrite storeDelete_run, Hin1, caches_get.
    simpl. do 2 f_equal. unfold exec. rewrite Hg. reflexivity. }
  rewrite Hw'. unfold eval. rewrite storeExists_run.
  unfold exec, write_cache, modify, bind, ret; simpl.
  rewrite cache_with_cache, lookup_delete_eq, lookup_insert_eq, Hcount.
  simpl. rewrite lookup_insert_eq. repeat split; reflexivity.
Qed.

Lemma get_result_survives_delete_witness :
  let w := exec (storeRegisterRaw VertexShader "basic" (raw 4)) empty_world in
  let w' := exec (storeDelete VertexShader "basic")
                 (exec (storeGet VertexShader "basic") w) in
  eval (storeGet VertexShader "basic") w = owns 4 /\
  use_count w' !! 4%positive = Some 1%nat /\
  destroyed w' = destroyed w /\
  eval (storeExists VertexShader "basic") w' = false.
Proof.
  intros w.
  apply (get_result_survives_delete VertexShader "basic" 4%positive 0%nat w).
  - vm_compute. reflexivity.
  - vm_compute. reflexivity.
Defined.

(** X8. The number of keys of a store goes up by one with a register that
    returns true, stays with one that returns false, and goes down by one
    with a delete of a key that exists. *)
Theorem size_accounting (kind : Kind) (key : string) (h : shared_ptr)
    (w : World) :
  size (cache kind (caches (exec (storeRegister kind key h) w))) =
    size (cache kind (caches w)) +
    (if eval (storeRegister kind key h) w then 1 else 0) /\
  size (cache kind (caches (exec (storeDelete kind key) w))) +
    (if eval (storeExists kind key) w then 1 else 0) =
    size (cache kind (caches w)).
Proof.
  rewrite caches_register, caches_delete. unfold eval.
  rewrite storeRegister_run, storeExists_run, cache_with_cache.
  rewrite map_size_delete.
  destruct (cache kind (caches w) !! key) as [v|] eqn:E; simpl.
  - split; [lia|].
    assert (size (cache kind (caches w)) <> 0).
    { intros Hz. apply map_size_empty_inv in Hz. rewrite Hz in E.
      rewrite lookup_empty in E. discriminate. }
    lia.
  - rewrite cache_with_cache, map_size_insert_None by exact E.
    split; lia.
Qed.

(** X9. [register] returns true exactly when the key did not exist, the
    raw-pointer overload likewise, and after either call the key exists
    whatever was returned. *)
Theorem register_reports_absence (kind : Kind) (key : string)
    (h : shared_ptr) (p : raw_ptr) (w : World) :
  eval (storeRegister kind key h) w = negb (eval (storeExists kind key) w) /\
  eval (storeRegisterRaw kind key p) w =
    negb (eval (storeExists kind key) w) /\
  eval (storeExists kind key) (exec (storeRegister kind key h) w) = true /\
  eval (storeExists kind key) (exec (storeRegisterRaw kind key p) w) = true.
Proof.
  unfold eval. rewrite !storeExists_run, storeRegisterRaw_run. simpl.
  rewrite caches_register, caches_register_raw. unfold eval.
  rewrite !storeRegister_run.
  rewrite (proj1 (proj2 (sp_from_raw_frame p w))).
  destruct (cache kind (caches w) !! key) as [v|] eqn:E; simpl.
  - rewrite E. repeat split; reflexivity.
  - rewrite !cache_with_cache, !lookup_insert_eq. repeat split; reflexivity.
Qed.

(** X10. The log is written by nothing but a register call, of either
    overload, on a key that exists, and then by exactly one warning. *)
Theorem only_collisions_are_logged (c : Call) (w : World) :
  log_output (exec (call c) w) =
  log_output w ++
  match c with
  | CallRegister kind key _ | CallRegisterRaw kind key _ =>
      if eval (storeExists kind key) w
      then [mkEntry Warning "shaderstore"
              [kind_name kind +:+ " with " +:+ dquote; key;
               dquote +:+ " key already exists."]]
      else []
  | _ => []
  end.
Proof.
  destruct c as [k key|k key|k key h|k key p|k key]; simpl;
    rewrite ?exec_then_ret, ?app_nil_r.
  - unfold exec. rewrite storeExists_run. reflexivity.
  - unfold exec. rewrite storeGet_run.
    destruct (cache k (caches w) !! key) as [v|]; [|reflexivity].
    apply (sp_copy_frame v w).
  - unfold exec, eval. rewrite storeRegister_run, storeExists_run.
    destruct (cache k (caches w) !! key) as [v|]; simpl; [reflexivity|].
    rewrite app_nil_r. unfold exec, write_cache, modify; simpl.
    apply (sp_copy_frame h w).
  - unfold exec at 1. rewrite storeRegisterRaw_run. simpl.
    rewrite (proj2 (sp_release_frame _ _)).
    unfold exec at 1, eval. rewrite storeRegister_run, storeExists_run.
    rewrite (proj1 (proj2 (sp_from_raw_frame p w))).
    destruct (sp_from_raw_frame p w) as (_ & _ & _ & Hl).
    destruct (cache k (caches w) !! key) as [v|]; simpl.
    + unfold exec at 1, logAlreadyExists, Log_warning, modify. simpl.
      unfold exec in Hl. rewrite Hl. reflexivity.
    + rewrite app_nil_r. unfold exec at 1, write_cache, modify; simpl.
      fold (exec (sp_from_raw p) w).
      fold (exec (sp_copy (wrap p)) (exec (sp_from_raw p) w)).
      rewrite (proj2 (proj2 (proj2 (sp_copy_frame _ _)))). exact Hl.
  - unfold exec. rewrite storeDelete_run.
    destruct (cache k (caches w) !! key) as [v|]; [|reflexivity]. simpl.
    unfold exec at 1, write_cache, modify; simpl.
    apply (sp_release_frame v w).
Qed.

(** *** Ownership is accounted for *)

Lemma occurrences_insert (a : addr) (m : gmap string shared_ptr)
    (k : string) (h : shared_ptr) :
  m !! k = None ->
  occurrences a (<[k := h]> m) =
  occurrences a m + (if decide (h = owns a) then 1 else 0).
Proof.
  intros Hk. unfold occurrences.
  destruct (decide (h = owns a)) as [Hh|Hh].
  - rewrite map_filter_insert_True by exact Hh.
    rewrite map_size_insert_None; [lia|].
    apply map_lookup_filter_None. left. exact Hk.
  - rewrite map_filter_insert_False by exact Hh.
    rewrite delete_id by exact Hk. lia.
Qed.

Lemma occurrences_delete (a : addr) (m : gmap string shared_ptr)
    (k : string) (v : shared_ptr) :
  m !! k = Some v ->
  occurrences a (delete k m) + (if decide (v = owns a) then 1 else 0) =
  occurrences a m.
Proof.
  intros Hk. rewrite <- (insert_delete_id m k v Hk) at 2.
  rewrite occurrences_insert by apply lookup_delete_eq. reflexivity.
Qed.

Lemma stored_with_cache (a : addr) (kind : Kind)
    (m : gmap string shared_ptr) (s : GLShaderStore) :
  stored_count a (with_cache kind m s) + occurrences a (cache kind s) =
  stored_count a s + occurrences a m.
Proof. destruct kind; unfold stored_count; simpl; lia. Qed.

Lemma stored_ge_occurrences (a : addr) (kind : Kind) (s : GLShaderStore) :
  occurrences a (cache kind s) <= stored_count a s.
Proof. destruct kind; unfold stored_count; simpl; lia. Qed.

Lemma owners_copy (b : addr) (h : shared_ptr) (w : World) :
  owners b (exec (sp_copy h) w) =
  owners b w + (if decide (h = owns b) then 1 else 0).
Proof.
  unfold owners, exec. destruct (decide (h = owns b)) as [->|Hne].
  - simpl. rewrite lookup_insert_eq. simpl. lia.
  - destruct h as [|a]; simpl; [lia|].
    rewrite lookup_insert_ne by congruence. lia.
Qed.

Lemma owners_release (b : addr) (h : shared_ptr) (w : World) :
  owners b w <=
  owners b (exec (sp_release h) w) + (if decide (h = owns b) then 1 else 0).
Proof.
  unfold owners. destruct (decide (h = owns b)) as [->|Hne].
  - unfold exec, sp_release, modify; simpl.
    destruct (use_count w !! b) as [[|[|n]]|] eqn:E; simpl;
      rewrite ?lookup_insert_eq, ?lookup_delete_eq, ?E; simpl; lia.
  - destruct h as [|a]; [unfold exec; simpl; lia|].
    assert (a <> b) by congruence.
    unfold exec, sp_release, modify; simpl.
    destruct (use_count w !! a) as [[|[|n]]|]; simpl;
      rewrite ?lookup_insert_ne, ?lookup_delete_ne by assumption; lia.
Qed.

Lemma owners_from_raw (b : addr) (p : raw_ptr) (w : World) :
  solely_owned p w ->
  owners b (exec (sp_from_raw p) w) =
  owners b w + (if decide (wrap p = owns b) then 1 else 0).
Proof.
  intros Hfresh. unfold owners, exec.
  destruct (decide (wrap p = owns b)) as [He|Hne].
  - destruct p as [|a]; [discriminate|]. simpl in *.
    injection He as ->. rewrite lookup_insert_eq, Hfresh. reflexivity.
  - destruct p as [|a]; simpl in *; [lia|].
    rewrite lookup_insert_ne by congruence. lia.
Qed.

(** A register, of a handle, moves the stored count and the use count of
    every object by the same amount. *)
Lemma register_keeps_slack (kind : Kind) (key : string) (h : shared_ptr)
    (b : addr) (w : World) :
  stored_count b (caches (exec (storeRegister kind key h) w)) + owners b w =
  stored_count b (caches w) + owners b (exec (storeRegister kind key h) w).
Proof.
  rewrite caches_register. unfold exec at 1. rewrite storeRegister_run.
  destruct (cache kind (caches w) !! key) as [v|] eqn:E; simpl;
    [reflexivity|].
  pose proof (stored_with_cache b kind
                (<[key := h]> (cache kind (caches w))) (caches w)) as Hs.
  rewrite occurrences_insert in Hs by exact E.
  pose proof (owners_copy b h w) as Ho.
  change (owners b (exec (write_cache kind
                            (<[key := h]> (cache kind (caches w))))
                         (exec (sp_copy h) w)))
    with (owners b (exec (sp_copy h) w)).
  lia.
Qed.

Lemma call_keeps_well_owned (c : Call) (w : World) :
  well_owned w -> call_ok c w -> well_owned (exec (call c) w).
Proof.
  intros Hw Hok b. specialize (Hw b).
  destruct c as [k key|k key|k key h|k key p|k key]; simpl in *;
    rewrite ?exec_then_ret.
  - unfold exec. rewrite storeExists_run. exact Hw.
  - rewrite caches_get. unfold exec. rewrite storeGet_run.
    destruct (cache k (caches w) !! key) as [v|]; [|exact Hw].
    pose proof (owners_copy b v w) as Ho. unfold exec in Ho. lia.
  - pose proof (register_keeps_slack k key h b w). lia.
  - unfold exec at 1 2. rewrite storeRegisterRaw_run. simpl.
    set (w1 := exec (sp_from_raw p) w).
    set (w2 := exec (storeRegister k key (wrap p)) w1).
    rewrite (proj1 (sp_release_frame (wrap p) w2)).
    pose proof (owners_from_raw b p w Hok) as H1. fold w1 in H1.
    pose proof (register_keeps_slack k key (wrap p) b w1) as H2.
    fold w2 in H2.
    assert (Hc1 : caches w1 = caches w) by apply (sp_from_raw_frame p w).
    rewrite Hc1 in H2.
    pose proof (owners_release b (wrap p) w2) as H3.
    lia.
  - rewrite caches_delete. unfold exec. rewrite storeDelete_run.
    destruct (cache k (caches w) !! key) as [v|] eqn:E.
    + simpl.
      pose proof (stored_with_cache b k (delete key (cache k (caches w)))
                    (caches w)) as Hs.
      pose proof (occurrences_delete b _ _ _ E) as Hd.
      pose proof (owners_release b v w) as Ho.
      change (owners b (exec (write_cache k
                                (delete key (cache k (caches w))))
                             (exec (sp_release v) w)))
        with (owners b (exec (sp_release v) w)).
      lia.
    + simpl. rewrite delete_id by exact E. rewrite with_cache_cache.
      exact Hw.
Qed.

(** X11. Every call keeps the ownership accounting: if each handle in the
    store is counted among the owners of its object before the call, and a
    raw pointer that the call hands over is solely owned, the same holds
    after the call. *)
Theorem calls_keep_ownership (c : Call) (w : World) :
  well_owned w -> call_ok c w -> well_owned (exec (call c) w).
Proof. apply call_keeps_well_owned. Qed.

Lemma well_owned_empty : well_owned empty_world.
Proof. intros a. vm_compute. lia. Qed.

Lemma calls_keep_ownership_witness :
  well_owned (exec (call (CallRegisterRaw VertexShader "basic" (raw 3)))
                   empty_world).
Proof.
  apply (calls_keep_ownership (CallRegisterRaw VertexShader "basic" (raw 3))
           empty_world).
  - exact well_owned_empty.
  - vm_compute. reflexivity.
Defined.

Lemma calls_keep_well_owned (cs : list Call) (w : World) :
  well_owned w -> calls_ok cs w -> well_owned (calls cs w).
Proof.
  revert w. induction cs as [|c cs IH]; intros w Hw Hok; [exact Hw|].
  destruct Hok as [Hc Hrest]. simpl. apply IH; [|exact Hrest].
  apply call_keeps_well_owned; assumption.
Qed.

Lemma occurrences_pos (a : addr) (m : gmap string shared_ptr) (k : string) :
  m !! k = Some (owns a) -> 1 <= occurrences a m.
Proof.
  intros Hk. pose proof (occurrences_delete a m k (owns a) Hk) as H.
  rewrite decide_True in H by reflexivity. lia.
Qed.

(** X12. The store never holds a dangling handle: from a state with sound
    ownership accounting, after any sequence of calls (raw pointers handed
    over while solely owned), every non-null handle found in any store has
    a live object behind it. *)
Theorem stored_handles_stay_live (cs : list Call) (w : World) (kind : Kind)
    (key : string) (a : addr) :
  well_owned w ->
  calls_ok cs w ->
  cache kind (caches (calls cs w)) !! key = Some (owns a) ->
  live (owns a) (calls cs w).
Proof.
  intros Hw Hok Hin.
  pose proof (calls_keep_well_owned cs w Hw Hok a) as Hinv.
  pose proof (occurrences_pos a _ _ Hin) as Hocc.
  pose proof (stored_ge_occurrences a kind (caches (calls cs w))) as Hst.
  unfold owners in Hinv. simpl.
  destruct (use_count (calls cs w) !! a) as [[|n]|]; simpl in Hinv;
    [lia|exists n; reflexivity|lia].
Qed.

Lemma stored_handles_stay_live_witness :
  live (owns 3)
    (calls [CallRegisterRaw VertexShader "basic" (raw 3);
            CallGet VertexShader "basic";
            CallRegisterRaw VertexShader "basic" (raw 6);
            CallDelete FragmentShader "basic"] empty_world).
Proof.
  apply (stored_handles_stay_live _ empty_world VertexShader "basic").
  - exact well_owned_empty.
  - repeat split; vm_compute; reflexivity.
  - vm_compute. reflexivity.
Defined.

(** Each call changes at most the entry under its own key in its own
    store, and what it leaves there depends only on what was there. *)
Lemma lookup_after_call (c : Call) (kind' : Kind) (key' : string)
    (w : World) :
  cache kind' (caches (exec (call c) w)) !! key' =
  if decide (call_kind c = kind' /\ call_key c = key')
  then entry_after c (cache kind' (caches w) !! key')
  else cache kind' (caches w) !! key'.
Proof.
  destruct (decide (call_kind c = kind' /\ call_key c = key'))
    as [[Hk Hy]|Hne].
  - rewrite caches_call.
    destruct c as [k y|k y|k y h|k y p|k y]; simpl in *; subst k y;
      try reflexivity.
    + destruct (cache kind' (caches w) !! key') as [v|] eqn:E;
        [exact E|]. rewrite cache_with_cache. apply lookup_insert_eq.
    + destruct (cache kind' (caches w) !! key') as [v|] eqn:E;
        [exact E|]. rewrite cache_with_cache. apply lookup_insert_eq.
    + rewrite cache_with_cache. apply lookup_delete_eq.
  - destruct (decide (call_kind c = kind')) as [Hk|Hk];
      [|rewrite call_other_kind by exact Hk; reflexivity].
    apply call_other_key. intros Hy. apply Hne. split; assumption.
Qed.

Lemma store_ext (s1 s2 : GLShaderStore) :
  (forall kind : Kind, cache kind s1 = cache kind s2) -> s1 = s2.
Proof.
  intros H. destruct s1, s2.
  pose proof (H VertexShader). pose proof (H FragmentShader).
  pose proof (H GeometryShader). pose proof (H TesselationEvaluationShader).
  pose proof (H TesselationControlShader). pose proof (H ComputeShader).
  pose proof (H ShaderProgram). simpl in *. congruence.
Qed.

(** X13. Two calls that differ in the store or in the key they address
    commute: in either order they leave the same seven maps. *)
Theorem calls_on_different_entries_commute (c1 c2 : Call) (w : World) :
  call_kind c1 <> call_kind c2 \/ call_key c1 <> call_key c2 ->
  caches (calls [c1; c2] w) = caches (calls [c2; c1] w).
Proof.
  intros Hdiff. apply store_ext. intros kind. apply map_eq. intros key.
  simpl. rewrite !lookup_after_call.
  destruct (decide (call_kind c1 = kind /\ call_key c1 = key))
    as [[Hk1 Hy1]|H1];
    destruct (decide (call_kind c2 = kind /\ call_key c2 = key))
      as [[Hk2 Hy2]|H2]; try reflexivity.
  exfalso. destruct Hdiff as [Hd|Hd]; apply Hd; congruence.
Qed.

Lemma calls_on_different_entries_commute_witness :
  caches (calls [CallRegister VertexShader "basic" (owns 1);
                 CallDelete VertexShader "other"] two_objects) =
  caches (calls [CallDelete VertexShader "other";
                 CallRegister VertexShader "basic" (owns 1)] two_objects).
Proof.
  apply (calls_on_different_entries_commute
           (CallRegister VertexShader "basic" (owns 1))
           (CallDelete VertexShader "other") two_objects).
  right. discriminate.
Defined.

(** X14. Sharing adds exactly one owner: a [register] that returns true
    and a [get] of a mapped key each raise the use count of the handle's
    object by one; a [register] that returns false and a [get] of a missing
    key raise none; no other object's count moves, and [register] destroys
    nothing. *)
Theorem sharing_adds_one_owner (kind : Kind) (key : string) (h : shared_ptr)
    (b : addr) (w : World) :
  owners b (exec (storeRegister kind key h) w) =
    owners b w +
    (if eval (storeRegister kind key h) w
     then if decide (h = owns b) then 1 else 0
     else 0) /\
  owners b (exec (storeGet kind key) w) =
    owners b w +
    (if decide (cache kind (caches w) !! key = Some (owns b))
     then 1 else 0) /\
  destroyed (exec (storeRegister kind key h) w) = destroyed w.
Proof.
  unfold eval, exec at 1 2 3.
  rewrite storeRegister_run, storeGet_run.
  destruct (cache kind (caches w) !! key) as [v|] eqn:E; simpl.
  - split; [unfold owners; simpl; lia|]. split; [|reflexivity].
    fold (exec (sp_copy v) w). rewrite (owners_copy b v w).
    destruct (decide (v = owns b)) as [->|Hv].
    + rewrite decide_True by reflexivity. reflexivity.
    + rewrite decide_False by congruence. reflexivity.
  - split; [|split].
    + change (owners b (exec (write_cache kind
                                (<[key := h]> (cache kind (caches w))))
                             (exec (sp_copy h) w)))
        with (owners b (exec (sp_copy h) w)).
      apply owners_copy.
    + lia.
    + apply (sp_copy_frame h w).
Qed.

(** X15. The collision warning identifies where the collision happened:
    two calls of the logging helper write the same entry only for the same
    kind and the same key. *)
Theorem warning_identifies_kind_and_key (kind kind' : Kind)
    (key key' : string) (w : World) :
  log_output (exec (logAlreadyExists kind key) w) =
  log_output (exec (logAlreadyExists kind' key') w) ->
  kind = kind' /\ key = key'.
Proof.
  unfold exec, logAlreadyExists, Log_warning, modify. simpl.
  intros H. apply app_inv_head in H.
  injection H as Hname Hkey. split; [|exact Hkey].
  destruct kind, kind'; try reflexivity; vm_compute in Hname;
    discriminate Hname.
Qed.

Lemma warning_identifies_kind_and_key_witness :
  ComputeShader = ComputeShader /\ "blur" = "blur".
Proof.
  apply (warning_identifies_kind_and_key ComputeShader ComputeShader
           "blur" "blur" empty_world).
  reflexivity.
Defined.

End ShaderStoreLaws.
